(** * The [nix flake] sub-commands of [src/nix/flake.cc]

    A shallow embedding of the command layer: the registry mutation
    commands ([add], [remove], [pin]), the lock-file update command, the
    dependency listing and [init].  Commands are computations in a small
    state-and-exception monad over a [World] that holds the file system,
    the global registry and the trace of the effects performed so far. *)

From Stdlib Require Import Ascii.
From stdpp Require Import gmap strings list fin_maps.
From Equations Require Import Equations.

(** ** Data model *)

(** [typedef std::string Path, FlakeUri]. *)
Abbreviation Path := string (only parsing).
Abbreviation FlakeUri := string (only parsing).

(** Modelled from the spec: the declaration of [FlakeRef] is not in
    [flake.cc].  The source reads three members of it: [data], a variant
    one of whose alternatives is [IsPath], and the optional [ref] and
    [rev].  The other alternatives follow the spec's kinds of Reference
    (Path, DirectURI, Alias), each carrying its locator. *)
Inductive FlakeRefData :=
| IsAlias (alias : string)
| IsURI (uri : string)
| IsPath (path : Path).

Record FlakeRef := mkFlakeRef {
  data : FlakeRefData;
  ref : option string;
  rev : option string
}.

#[global] Instance FlakeRefData_eq_dec : EqDecision FlakeRefData.
Proof. solve_decision. Defined.

#[global] Instance FlakeRef_eq_dec : EqDecision FlakeRef.
Proof. solve_decision. Defined.

Definition FlakeRefData_to_sum (d : FlakeRefData) : string + (string + string) :=
  match d with
  | IsAlias a => inl a
  | IsURI u => inr (inl u)
  | IsPath p => inr (inr p)
  end.

Definition FlakeRefData_of_sum (s : string + (string + string)) : FlakeRefData :=
  match s with
  | inl a => IsAlias a
  | inr (inl u) => IsURI u
  | inr (inr p) => IsPath p
  end.

#[global] Instance FlakeRefData_countable : Countable FlakeRefData.
Proof.
  apply (inj_countable' FlakeRefData_to_sum FlakeRefData_of_sum).
  by intros [].
Defined.

#[global] Instance FlakeRef_countable : Countable FlakeRef.
Proof.
  apply (inj_countable'
           (λ r, (data r, ref r, rev r))
           (λ t, mkFlakeRef t.1.1 t.1.2 t.2)).
  by intros [].
Defined.

(** [std::get_if<FlakeRef::IsPath>(&flakeRef.data)] is non-null. *)
Definition holds_IsPath (d : FlakeRefData) : bool :=
  match d with
  | IsPath _ => true
  | _ => false
  end.

Record SourceInfo := mkSourceInfo {
  resolvedRef : FlakeRef;
  revCount : option nat;
  storePath : Path
}.

Record Flake := mkFlake {
  id : string;
  description : string;
  epoch : nat;
  sourceInfo : SourceInfo
}.

Record NonFlake := mkNonFlake {
  nonFlake_alias : string;
  nonFlake_sourceInfo : SourceInfo
}.

(** A resolved flake is a finite tree: [flakeDeps] is kept as the sequence
    of (key, node) pairs in the order the container iterates them. *)
#[warnings="-register-all"]
Inductive ResolvedFlake := mkResolvedFlake {
  flake : Flake;
  flakeDeps : list (string * ResolvedFlake);
  nonFlakeDeps : list NonFlake
}.

(** A registry: [entries] is a map with unique keys, searched with [find],
    shrunk with [erase] and updated with [insert_or_assign]. *)
Record FlakeRegistry := mkFlakeRegistry {
  entries : gmap FlakeRef FlakeRef
}.

Definition find (k : FlakeRef) (r : FlakeRegistry) : option FlakeRef :=
  entries r !! k.

Definition erase (k : FlakeRef) (r : FlakeRegistry) : FlakeRegistry :=
  {| entries := delete k (entries r) |}.

Definition insert_or_assign (k v : FlakeRef) (r : FlakeRegistry) : FlakeRegistry :=
  {| entries := <[k := v]> (entries r) |}.

(** [it->second = v] for the iterator [it] that [find k] returned: the
    entry under [k] is overwritten where it is, no entry is created. *)
Definition assign_second (k v : FlakeRef) (r : FlakeRegistry) : FlakeRegistry :=
  {| entries := alter (λ _, v) k (entries r) |}.

(** [s.find(c)]: the index of the first [c] in [s], [None] for [npos]. *)
Fixpoint string_find (c : ascii) (s : string) : option nat :=
  match s with
  | EmptyString => None
  | String c' s' => if Ascii.eqb c' c then Some 0 else S <$> string_find c s'
  end.


(** The nodes of a resolved flake, itself included. *)
Fixpoint node_count (r : ResolvedFlake) : nat :=
  match r with
  | mkResolvedFlake _ deps _ => S (list_sum (map (λ info, node_count info.2) deps))
  end.

Definition queue_size (todo : list ResolvedFlake) : nat :=
  list_sum (map node_count todo).

(** The lock-file mode of [MixFlakeOptions]; the command layer only passes
    it on. *)
Inductive LockFileMode := UseExisting | UpdateIfNeeded | Ignore.

(** ** Errors

    The source throws [Error] with a message; one constructor per message.
    The spec's names are kept where it gives one: [NotUpdatableError] is
    "cannot update lockfile of flake '%s'", [UnknownAliasError] is "the
    flake alias '%s' does not exist in the user or global registry". *)
Inductive Error :=
| NotUpdatableError (flakeRef : FlakeRef)
| UnknownAliasError (alias : FlakeUri)
| NotAGitRepository (flakeDir : Path)
| FileAlreadyExists (flakePath : Path)
| EvalError (msg : string).

Inductive Result (A : Type) :=
| Ok (a : A)
| Throw (e : Error).
Arguments Ok {A} a.
Arguments Throw {A} e.

(** ** The world and the command monad *)

Section Commands.

Set Default Proof Using "Type".

(** The persisted form of a file.  The serialiser and the parser of
    registries ([writeRegistry], [readRegistry]) are not in [flake.cc]. *)
Context {Bytes : Type}.

(** What a command did, in order. *)
Inductive Effect :=
| PrintFlakeInfo (f : Flake)
| PrintNonFlakeInfo (n : NonFlake)
| WriteFile (path : Path) (contents : Bytes)
| UpdateLockFile (flakeRef : FlakeRef) (flag : bool).

(** A path exists when [fs] binds it; the commands never look inside a
    directory, they only test that it is there. *)
Record World := mkWorld {
  fs : gmap Path Bytes;
  globalRegistry : FlakeRegistry;
  trace : list Effect
}.

Definition M (A : Type) : Type := World → Result A * World.

Definition ret {A} (a : A) : M A := λ w, (Ok a, w).

Definition bind {A B} (c : M A) (k : A → M B) : M B :=
  λ w, match c w with
       | (Ok a, w') => k a w'
       | (Throw e, w') => (Throw e, w')
       end.

Definition throw {A} (e : Error) : M A := λ w, (Throw e, w).

Definition lift {A} (r : Result A) : M A := λ w, (r, w).

Definition gets {A} (f : World → A) : M A := λ w, (Ok (f w), w).

(** The world with the effects [es] appended to its trace. *)
Definition emits (es : list Effect) (w : World) : World :=
  {| fs := fs w; globalRegistry := globalRegistry w; trace := trace w ++ es |}.

Definition print (e : Effect) (w : World) : World := emits [e] w.

Definition emit (e : Effect) : M unit := λ w, (Ok tt, print e w).

Notation "x <- c ;; k" := (bind c (λ x, k))
  (at level 100, c at next level, right associativity).

(** The world a command leaves behind, whether it returned or threw. *)
Definition exec {A} (c : M A) (w : World) : World := (c w).2.

(** *** Collaborators that [flake.cc] calls and does not define *)

(** [FlakeRef(uri)] and [FlakeRef(uri, flag)]. *)
Variable FlakeRef_of : string → FlakeRef.
Variable FlakeRef_of_flag : string → bool → FlakeRef.

Variable getUserRegistryPath : Path.
Variable absPath : Path → Path.

(** The contents of [flake-template.nix.gen.hh]. *)
Variable flakeTemplate : Bytes.

(** Modelled from the spec: the evaluator, [evaluate(ref, mode) -> Flake |
    EvalError], a function of the reference and the flag it is given. *)
Variable getFlake : FlakeRef → bool → Result Flake.

(** Modelled from the spec: [resolveFlake(ref, lockMode) -> ResolvedFlake],
    here also a function of the registry overrides given to the evaluator
    state before the call. *)
Variable resolveFlake :
  list (string * string) → FlakeRef → LockFileMode → Result ResolvedFlake.

(** Modelled from the spec: persistence.  A registry is saved as
    [registryToBytes] of it and loaded with [registryOfBytes]; the spec
    asks that save then load reproduces equal entries. *)
Variable registryToBytes : FlakeRegistry → Bytes.
Variable registryOfBytes : Bytes → FlakeRegistry.
Hypothesis load_save : ∀ r, registryOfBytes (registryToBytes r) = r.

(** *** File-system primitives *)

Definition pathExists (p : Path) : M bool :=
  gets (λ w, bool_decide (is_Some (fs w !! p))).

Definition writeFile (p : Path) (contents : Bytes) : M unit :=
  λ w, (Ok tt, {| fs := <[p := contents]> (fs w);
                  globalRegistry := globalRegistry w;
                  trace := trace w ++ [WriteFile p contents] |}).

(** Modelled from the spec: [loadRegistry(location) -> Registry] is total;
    a location that holds nothing loads as the registry without entries. *)
Definition readRegistry (p : Path) : M FlakeRegistry :=
  gets (λ w, match fs w !! p with
             | Some b => registryOfBytes b
             | None => {| entries := ∅ |}
             end).

(** Modelled from the spec: [saveRegistry(Registry, location)]. *)
Definition writeRegistry (r : FlakeRegistry) (p : Path) : M unit :=
  writeFile p (registryToBytes r).

(** The call is recorded in the trace; what it does to the lock file is the
    evaluator's business. *)
Definition updateLockFile (flakeRef : FlakeRef) (flag : bool) : M unit :=
  emit (UpdateLockFile flakeRef flag).

(** ** [CmdFlakeAdd::run] and [CmdFlakeRemove::run] *)

Definition CmdFlakeAdd_run (alias uri : FlakeUri) : M unit :=
  let aliasRef := FlakeRef_of alias in
  let userRegistryPath := getUserRegistryPath in
  userRegistry <- readRegistry userRegistryPath ;;
  let userRegistry := erase aliasRef userRegistry in
  let userRegistry := insert_or_assign aliasRef (FlakeRef_of uri) userRegistry in
  writeRegistry userRegistry userRegistryPath.

Definition CmdFlakeRemove_run (alias : FlakeUri) : M unit :=
  let userRegistryPath := getUserRegistryPath in
  userRegistry <- readRegistry userRegistryPath ;;
  let userRegistry := erase (FlakeRef_of alias) userRegistry in
  writeRegistry userRegistry userRegistryPath.

(** ** [FlakeCommand]: the optional [flake-uri] argument *)


Definition getFlakeRef (flakeUri : string) : FlakeRef :=
  if bool_decide (string_find "/"%char flakeUri ≠ None) || String.eqb flakeUri "."
  then FlakeRef_of_flag flakeUri true
  else FlakeRef_of flakeUri.

(** ** [CmdFlakeUpdate::run] *)

Definition CmdFlakeUpdate_run (flakeUri : string) : M unit :=
  let flakeRef := getFlakeRef flakeUri in
  if holds_IsPath (data flakeRef)
  then updateLockFile flakeRef true
  else throw (NotUpdatableError flakeRef).

(** ** [CmdFlakePin::run] *)

Definition CmdFlakePin_run (alias : FlakeUri) : M unit :=
  let userRegistryPath := getUserRegistryPath in
  userRegistry <- readRegistry userRegistryPath ;;
  match find (FlakeRef_of alias) userRegistry with
  | Some target =>
      f <- lift (getFlake target true) ;;
      let userRegistry :=
        assign_second (FlakeRef_of alias) (resolvedRef (sourceInfo f)) userRegistry in
      writeRegistry userRegistry userRegistryPath
  | None =>
      globalReg <- gets globalRegistry ;;
      match find (FlakeRef_of alias) globalReg with
      | Some target =>
          f <- lift (getFlake target true) ;;
          let newRef := resolvedRef (sourceInfo f) in
          let userRegistry :=
            insert_or_assign (FlakeRef_of alias) newRef userRegistry in
          writeRegistry userRegistry userRegistryPath
      | None => throw (UnknownAliasError alias)
      end
  end.

(** ** [CmdFlakeInit::run] *)

Definition CmdFlakeInit_run : M unit :=
  let flakeDir := absPath "." in
  isGit <- pathExists (flakeDir +:+ "/.git") ;;
  if negb isGit then throw (NotAGitRepository flakeDir) else
  let flakePath := flakeDir +:+ "/flake.nix" in
  present <- pathExists flakePath ;;
  if present then throw (FileAlreadyExists flakePath) else
  writeFile flakePath flakeTemplate.

(** ** [CmdFlakeDeps::run]

    The printing loops cannot throw, so they are written in plain state
    passing; the [while] loop runs on the queue and the world.  The
    progress bar is presentation and is left out. *)

Definition printNonFlakeInfo (nonFlake : NonFlake) : World → World :=
  print (PrintNonFlakeInfo nonFlake).

Definition printFlakeInfo (f : Flake) : World → World :=
  print (PrintFlakeInfo f).

(** [for (auto & nonFlake : resFlake.nonFlakeDeps) printNonFlakeInfo(nonFlake);] *)
Fixpoint for_nonFlakeDeps (l : list NonFlake) (w : World) : World :=
  match l with
  | [] => w
  | nonFlake :: l' => for_nonFlakeDeps l' (printNonFlakeInfo nonFlake w)
  end.

(** [for (auto & info : resFlake.flakeDeps) { printFlakeInfo(info.second.flake);
    todo.push(info.second); }] *)
Fixpoint for_flakeDeps (l : list (string * ResolvedFlake))
    (todo : list ResolvedFlake) (w : World) : list ResolvedFlake * World :=
  match l with
  | [] => (todo, w)
  | info :: l' =>
      for_flakeDeps l' (todo ++ [info.2]) (printFlakeInfo (flake info.2) w)
  end.

Lemma for_flakeDeps_todo l todo w :
  (for_flakeDeps l todo w).1 = todo ++ map snd l.
Proof.
  revert todo w. induction l as [|info l IH]; intros todo w; simpl.
  - by rewrite app_nil_r.
  - by rewrite IH, <- app_assoc.
Qed.

Lemma queue_size_app q1 q2 : queue_size (q1 ++ q2) = queue_size q1 + queue_size q2.
Proof. unfold queue_size. by rewrite map_app, list_sum_app. Qed.

Lemma queue_size_children r :
  queue_size (map snd (flakeDeps r)) < node_count r.
Proof.
  destruct r as [f deps nf]. unfold queue_size. simpl.
  rewrite map_map. lia.
Qed.

(** [while (!todo.empty()) { resFlake = todo.front(); todo.pop(); ... }] *)
Equations? while_todo (todo : list ResolvedFlake) (w : World) : World
  by wf (queue_size todo) lt :=
  while_todo [] w := w;
  while_todo (resFlake :: todo) w :=
    while_todo
      (for_flakeDeps (flakeDeps resFlake) todo
         (for_nonFlakeDeps (nonFlakeDeps resFlake) w)).1
      (for_flakeDeps (flakeDeps resFlake) todo
         (for_nonFlakeDeps (nonFlakeDeps resFlake) w)).2.
Proof.
  rewrite for_flakeDeps_todo, queue_size_app.
  pose proof (queue_size_children resFlake).
  unfold queue_size at 3. simpl. unfold queue_size in *. lia.
Qed.

Definition CmdFlakeDeps_run (flakeUri : string)
    (registryOverrides : list (string * string)) (mode : LockFileMode) : M unit :=
  root <- lift (resolveFlake registryOverrides (getFlakeRef flakeUri) mode) ;;
  λ w, (Ok tt, while_todo [root] w).

(** ** Vocabulary of the properties *)

(** What the loop body prints for one dequeued node, and what it pushes. *)
Definition block (n : ResolvedFlake) : list Effect :=
  map PrintNonFlakeInfo (nonFlakeDeps n)
  ++ map (λ info, PrintFlakeInfo (flake info.2)) (flakeDeps n).

Definition children (n : ResolvedFlake) : list ResolvedFlake :=
  map snd (flakeDeps n).

(** The nodes [d] edges below the nodes of [q], left to right. *)
Fixpoint level (d : nat) (q : list ResolvedFlake) : list ResolvedFlake :=
  match d with
  | 0 => q
  | S d' => level d' (flat_map children q)
  end.

(** The blocks of the first [d] levels below [q], level after level. *)
Definition level_order (d : nat) (q : list ResolvedFlake) : list Effect :=
  flat_map (λ i, flat_map block (level i q)) (seq 0 d).

(** The registry that [readRegistry(getUserRegistryPath())] loads. *)
Definition userRegistry (w : World) : FlakeRegistry :=
  match fs w !! getUserRegistryPath with
  | Some b => registryOfBytes b
  | None => {| entries := ∅ |}
  end.

(** The world after [writeRegistry(r, getUserRegistryPath())]. *)
Definition saved (r : FlakeRegistry) (w : World) : World :=
  {| fs := <[getUserRegistryPath := registryToBytes r]> (fs w);
     globalRegistry := globalRegistry w;
     trace := trace w ++ [WriteFile getUserRegistryPath (registryToBytes r)] |}.

(** Every dependency of every node of the tree under [n], the node's own
    first, then those of its flake dependencies, depth first. *)
Fixpoint all_deps (n : ResolvedFlake) : list Effect :=
  match n with
  | mkResolvedFlake _ deps nonFlakes =>
      map PrintNonFlakeInfo nonFlakes
      ++ map (λ info, PrintFlakeInfo (flake info.2)) deps
      ++ flat_map (λ info, all_deps info.2) deps
  end.

(** The flakes whose info a trace prints. *)
Definition flake_infos (es : list Effect) : list Flake :=
  omap (λ e, match e with PrintFlakeInfo f => Some f | _ => None end) es.

Definition is_print (e : Effect) : Prop :=
  match e with
  | PrintFlakeInfo _ | PrintNonFlakeInfo _ => True
  | _ => False
  end.

(** ** Output: [printSourceInfo], [sourceInfoToJson] and the like

    [std::cout] is the sequence of the chunks written to it, one chunk for
    each output statement.  A JSON object is a map from keys to values;
    [j["k"] = v] inserts or overwrites. *)

(** [FlakeRef::to_string()], [Hash::to_string(Base16, false)] and the way
    [fmt] renders a number: not in [flake.cc]. *)
Variable FlakeRef_to_string : FlakeRef → string.
Variable Hash_to_string : string → string.
Variable fmt_num : nat → string.

Definition nl : string := String "010"%char EmptyString.

Inductive Json :=
| JString (s : string)
| JNumber (n : nat).


Definition sourceInfoToJson (sourceInfo : SourceInfo) (j : gmap string Json)
    : gmap string Json :=
  let j := <["uri" := JString (FlakeRef_to_string (resolvedRef sourceInfo))]> j in
  let j :=
    match ref (resolvedRef sourceInfo) with
    | Some branch => <["branch" := JString branch]> j
    | None => j
    end in
  let j :=
    match rev (resolvedRef sourceInfo) with
    | Some hash => <["revision" := JString (Hash_to_string hash)]> j
    | None => j
    end in
  let j :=
    match revCount sourceInfo with
    | Some count => <["revCount" := JNumber count]> j
    | None => j
    end in
  <["path" := JString (storePath sourceInfo)]> j.


Definition flakeToJson (f : Flake) : gmap string Json :=
  let j := ∅ in
  let j := <["id" := JString (id f)]> j in
  let j := <["description" := JString (description f)]> j in
  let j := <["epoch" := JNumber (epoch f)]> j in
  sourceInfoToJson (sourceInfo f) j.


Definition nonFlakeToJson (nonFlake : NonFlake) : gmap string Json :=
  let j := ∅ in
  let j := <["id" := JString (nonFlake_alias nonFlake)]> j in
  sourceInfoToJson (nonFlake_sourceInfo nonFlake) j.

(** ** [CmdFlakeList::run]

    [getFlakeRegistries()] gives the registries by name; each is printed
    in the order its map iterates. *)

Inductive RegistryName := FLAG_REGISTRY | USER_REGISTRY | GLOBAL_REGISTRY.

Definition entry_line (layer : string) (entry : FlakeRef * FlakeRef) : string :=
  FlakeRef_to_string entry.1 +:+ layer +:+ FlakeRef_to_string entry.2 +:+ nl.

(** [for (auto & entry : registry->entries) std::cout << ... ;] *)
Definition print_entries (layer : string) (r : FlakeRegistry) (cout : list string)
    : list string :=
  foldl (λ cout entry, cout ++ [entry_line layer entry]) cout
    (map_to_list (entries r)).

Definition CmdFlakeList_run (registries : RegistryName → FlakeRegistry)
    (cout : list string) : list string :=
  let cout := print_entries " flags " (registries FLAG_REGISTRY) cout in
  let cout := print_entries " user " (registries USER_REGISTRY) cout in
  print_entries " global " (registries GLOBAL_REGISTRY) cout.

(** ** Breadth-first order of the dependency listing *)

Lemma emits_nil w : emits [] w = w.
Proof. destruct w. unfold emits. simpl. by rewrite app_nil_r. Qed.

Lemma emits_emits es1 es2 w : emits es2 (emits es1 w) = emits (es1 ++ es2) w.
Proof. unfold emits. simpl. by rewrite app_assoc. Qed.

Lemma for_nonFlakeDeps_emits l w :
  for_nonFlakeDeps l w = emits (map PrintNonFlakeInfo l) w.
Proof.
  revert w. induction l as [|n l IH]; intros w; simpl.
  - by rewrite emits_nil.
  - rewrite IH. unfold printNonFlakeInfo, print. by rewrite emits_emits.
Qed.

Lemma for_flakeDeps_emits l todo w :
  for_flakeDeps l todo w =
  (todo ++ map snd l, emits (map (λ info, PrintFlakeInfo (flake info.2)) l) w).
Proof.
  revert todo w. induction l as [|info l IH]; intros todo w; simpl.
  - by rewrite app_nil_r, emits_nil.
  - rewrite IH. unfold printFlakeInfo, print.
    by rewrite emits_emits, <- app_assoc.
Qed.

Lemma while_todo_cons resFlake todo w :
  while_todo (resFlake :: todo) w =
  while_todo (todo ++ children resFlake) (emits (block resFlake) w).
Proof.
  rewrite while_todo_equation_2.
  rewrite for_flakeDeps_emits, for_nonFlakeDeps_emits. cbn [fst snd].
  by rewrite emits_emits.
Qed.

(** A whole prefix of the queue is served before anything it pushed. *)
Lemma while_todo_app q1 q2 w :
  while_todo (q1 ++ q2) w =
  while_todo (q2 ++ flat_map children q1) (emits (flat_map block q1) w).
Proof.
  revert q2 w. induction q1 as [|n q1 IH]; intros q2 w; simpl.
  - by rewrite app_nil_r, emits_nil.
  - rewrite while_todo_cons, <- app_assoc, IH.
    by rewrite emits_emits, <- app_assoc.
Qed.

Lemma while_todo_level q w :
  while_todo q w = while_todo (flat_map children q) (emits (flat_map block q) w).
Proof.
  rewrite <- (app_nil_r q) at 1. by rewrite while_todo_app.
Qed.

Lemma level_order_S d q :
  level_order (S d) q = flat_map block q ++ level_order d (flat_map children q).
Proof.
  unfold level_order. rewrite <- cons_seq. simpl. f_equal.
  rewrite <- fmap_S_seq. generalize (seq 0 d). intros l.
  induction l as [|i l IH]; [done|].
  rewrite fmap_cons. cbn [flat_map]. by rewrite IH.
Qed.

Lemma while_todo_levels d q w :
  while_todo q w = while_todo (level d q) (emits (level_order d q) w).
Proof.
  revert q w. induction d as [|d IH]; intros q w.
  - simpl. unfold level_order. simpl. by rewrite emits_nil.
  - rewrite level_order_S. simpl. rewrite while_todo_level, IH.
    by rewrite emits_emits.
Qed.

Lemma node_count_pos n : 0 < node_count n.
Proof. destruct n. simpl. lia. Qed.

Lemma queue_size_flat_map_children q :
  queue_size (flat_map children q) + length q ≤ queue_size q.
Proof.
  induction q as [|n q IH]; simpl; [done|].
  rewrite queue_size_app. pose proof (queue_size_children n).
  unfold children, queue_size in *. simpl. lia.
Qed.

Lemma queue_size_level d q : queue_size (level d q) ≤ queue_size q - d.
Proof.
  revert q. induction d as [|d IH]; intros q; simpl; [lia|].
  destruct q as [|n q].
  - simpl. specialize (IH []). unfold queue_size in *. simpl in *. lia.
  - specialize (IH (flat_map children (n :: q))).
    pose proof (queue_size_flat_map_children (n :: q)). simpl in *. lia.
Qed.

Lemma level_exhausted q : level (queue_size q) q = [].
Proof.
  pose proof (queue_size_level (queue_size q) q) as H.
  destruct (level (queue_size q) q) as [|n l]; [done|].
  pose proof (node_count_pos n). unfold queue_size in H at 1. simpl in H. lia.
Qed.

(** ** Properties of the registry commands *)

Lemma FlakeRegistry_eq (r1 r2 : FlakeRegistry) :
  (∀ k, find k r1 = find k r2) → r1 = r2.
Proof.
  destruct r1 as [m1], r2 as [m2]. unfold find. simpl. intros H.
  f_equal. by apply map_eq.
Qed.

Lemma find_erase k k' r :
  find k' (erase k r) = if decide (k = k') then None else find k' r.
Proof. unfold find, erase. simpl. apply lookup_delete. Qed.

Lemma find_insert_or_assign k v k' r :
  find k' (insert_or_assign k v r) = if decide (k = k') then Some v else find k' r.
Proof. unfold find, insert_or_assign. simpl. apply lookup_insert. Qed.

Lemma assign_second_found k v r target :
  find k r = Some target → assign_second k v r = insert_or_assign k v r.
Proof.
  intros H. apply FlakeRegistry_eq. intros k'.
  rewrite find_insert_or_assign. unfold find, assign_second in *. simpl.
  rewrite lookup_alter. case_decide; subst; [by rewrite H | done].
Qed.

Lemma erase_absent k r : find k r = None → erase k r = r.
Proof.
  intros H. apply FlakeRegistry_eq. intros k'. rewrite find_erase.
  case_decide; by subst.
Qed.

Lemma erase_insert_or_assign k v r :
  erase k (insert_or_assign k v r) = erase k r.
Proof.
  apply FlakeRegistry_eq. intros k'. rewrite !find_erase, find_insert_or_assign.
  by case_decide.
Qed.

Lemma insert_or_assign_twice k v v' r :
  insert_or_assign k v (insert_or_assign k v' r) = insert_or_assign k v r.
Proof.
  apply FlakeRegistry_eq. intros k'. rewrite !find_insert_or_assign.
  by case_decide.
Qed.

Lemma userRegistry_saved r w : userRegistry (saved r w) = r.
Proof using load_save.
  unfold userRegistry, saved. simpl. by rewrite lookup_insert_eq, load_save.
Qed.

Lemma fs_saved_saved r r' w : fs (saved r (saved r' w)) = fs (saved r w).
Proof. unfold saved. simpl. apply insert_insert_eq. Qed.

Lemma CmdFlakeAdd_run_saved alias uri w :
  CmdFlakeAdd_run alias uri w =
  (Ok tt, saved (insert_or_assign (FlakeRef_of alias) (FlakeRef_of uri)
                   (erase (FlakeRef_of alias) (userRegistry w))) w).
Proof. reflexivity. Qed.

Lemma CmdFlakeRemove_run_saved alias w :
  CmdFlakeRemove_run alias w =
  (Ok tt, saved (erase (FlakeRef_of alias) (userRegistry w)) w).
Proof. reflexivity. Qed.

(** What [pin] does in each of its branches, the evaluator's failure
    included. *)
Lemma CmdFlakePin_run_cases alias w :
  CmdFlakePin_run alias w =
  match find (FlakeRef_of alias) (userRegistry w) with
  | Some target =>
      match getFlake target true with
      | Ok f => (Ok tt, saved (insert_or_assign (FlakeRef_of alias)
                                 (resolvedRef (sourceInfo f)) (userRegistry w)) w)
      | Throw e => (Throw e, w)
      end
  | None =>
      match find (FlakeRef_of alias) (globalRegistry w) with
      | Some target =>
          match getFlake target true with
          | Ok f => (Ok tt, saved (insert_or_assign (FlakeRef_of alias)
                                     (resolvedRef (sourceInfo f)) (userRegistry w)) w)
          | Throw e => (Throw e, w)
          end
      | None => (Throw (UnknownAliasError alias), w)
      end
  end.
Proof.
  unfold CmdFlakePin_run, bind, readRegistry, gets, lift, throw, writeRegistry.
  fold (userRegistry w).
  destruct (find (FlakeRef_of alias) (userRegistry w)) as [target|] eqn:Hu.
  - destruct (getFlake target true) as [f|e]; [|done].
    by rewrite (assign_second_found _ _ _ _ Hu).
  - destruct (find (FlakeRef_of alias) (globalRegistry w)) as [target|]; [|done].
    by destruct (getFlake target true).
Qed.

(** C5: [add(alias, target)] erases the User entry of [alias], inserts
    (alias, target) and persists the result: afterwards the User registry
    file holds a registry that maps [alias] to [target] and every other key
    as before.  [add] is idempotent: run twice in a row it leaves the same
    file system as run once. *)
Theorem add_upserts_and_is_idempotent (alias uri : FlakeUri) (w : World) :
  let k := FlakeRef_of alias in
  let r' := insert_or_assign k (FlakeRef_of uri) (erase k (userRegistry w)) in
  CmdFlakeAdd_run alias uri w = (Ok tt, saved r' w)
  ∧ fs (exec (CmdFlakeAdd_run alias uri) w) !! getUserRegistryPath
      = Some (registryToBytes r')
  ∧ find k r' = Some (FlakeRef_of uri)
  ∧ (∀ k', k' ≠ k → find k' r' = find k' (userRegistry w))
  ∧ fs (exec (CmdFlakeAdd_run alias uri) (exec (CmdFlakeAdd_run alias uri) w))
      = fs (exec (CmdFlakeAdd_run alias uri) w).
Proof using load_save.
  intros k r'. unfold exec. rewrite !CmdFlakeAdd_run_saved. simpl.
  fold k. fold r'. split_and!.
  - done.
  - apply lookup_insert_eq.
  - subst r'. rewrite find_insert_or_assign. by rewrite decide_True.
  - intros k' Hk'. subst r'. rewrite find_insert_or_assign, find_erase.
    by rewrite !decide_False.
  - rewrite userRegistry_saved.
    fold k. subst r'.
    rewrite erase_insert_or_assign.
    replace (erase k (erase k (userRegistry w))) with (erase k (userRegistry w)).
    + apply insert_insert_eq.
    + symmetry. apply erase_absent. rewrite find_erase. by rewrite decide_True.
Qed.

(** C8: [remove(alias)] never fails; it persists the User registry without
    the entry of [alias], every other entry as before.  When [alias] has
    no entry the registry it writes is the one it read, and it is written
    all the same. *)
Theorem remove_deletes_and_persists (alias : FlakeUri) (w : World) :
  let k := FlakeRef_of alias in
  let r' := erase k (userRegistry w) in
  CmdFlakeRemove_run alias w = (Ok tt, saved r' w)
  ∧ trace (exec (CmdFlakeRemove_run alias) w)
      = trace w ++ [WriteFile getUserRegistryPath (registryToBytes r')]
  ∧ fs (exec (CmdFlakeRemove_run alias) w) !! getUserRegistryPath
      = Some (registryToBytes r')
  ∧ find k r' = None
  ∧ (∀ k', k' ≠ k → find k' r' = find k' (userRegistry w))
  ∧ (find k (userRegistry w) = None → r' = userRegistry w).
Proof.
  intros k r'. unfold exec. rewrite CmdFlakeRemove_run_saved. cbn [snd].
  fold k. fold r'. split_and!.
  - done.
  - done.
  - apply lookup_insert_eq.
  - subst r'. rewrite find_erase. by rewrite decide_True.
  - intros k' Hk'. subst r'. rewrite find_erase. by rewrite decide_False.
  - apply erase_absent.
Qed.

(** For a world whose loaded User registry has no entry for [alias],
    [add] then [remove] gives back the registry that was loaded. *)
Lemma add_then_remove_restores_loaded_registry (alias uri : FlakeUri) (w : World) :
  find (FlakeRef_of alias) (userRegistry w) = None →
  userRegistry
    (exec (CmdFlakeRemove_run alias) (exec (CmdFlakeAdd_run alias uri) w))
  = userRegistry w.
Proof using load_save.
  intros Habsent. unfold exec.
  rewrite CmdFlakeAdd_run_saved. cbn [snd].
  rewrite CmdFlakeRemove_run_saved. cbn [snd].
  rewrite !userRegistry_saved, erase_insert_or_assign.
  by rewrite !(erase_absent _ _ Habsent).
Qed.

(** Why the file must hold a saved registry for the bytes to come back: a
    missing registry file is created by the first write. *)
Lemma add_then_remove_creates_missing_file (alias uri : FlakeUri) (w : World) :
  fs w !! getUserRegistryPath = None →
  fs (exec (CmdFlakeRemove_run alias) (exec (CmdFlakeAdd_run alias uri) w))
    !! getUserRegistryPath
  = Some (registryToBytes {| entries := ∅ |}).
Proof using load_save.
  intros Hmissing. unfold exec.
  rewrite CmdFlakeAdd_run_saved. cbn [snd].
  rewrite CmdFlakeRemove_run_saved. cbn [snd].
  rewrite !userRegistry_saved, erase_insert_or_assign.
  assert (userRegistry w = {| entries := ∅ |}) as ->.
  { unfold userRegistry. by rewrite Hmissing. }
  rewrite !erase_absent by done.
  unfold saved. simpl. apply lookup_insert_eq.
Qed.

(** C4, as amended: when the User registry file holds the persisted form
    of a registry [r0] that has no entry for [alias], [add(alias, target)]
    followed by [remove(alias)] leaves the file system as it was, the file
    holding the same bytes again, and the registry loaded is [r0]. *)
Theorem add_then_remove_restores_absent
    (alias uri : FlakeUri) (r0 : FlakeRegistry) (w : World) :
  fs w !! getUserRegistryPath = Some (registryToBytes r0) →
  find (FlakeRef_of alias) r0 = None →
  let w' := exec (CmdFlakeRemove_run alias) (exec (CmdFlakeAdd_run alias uri) w) in
  fs w' = fs w ∧ userRegistry w' = r0.
Proof using load_save.
  intros Hfile Habsent w'. subst w'.
  assert (userRegistry w = r0) as Hloaded.
  { unfold userRegistry. by rewrite Hfile, load_save. }
  split.
  - unfold exec.
    rewrite CmdFlakeAdd_run_saved. cbn [snd].
    rewrite CmdFlakeRemove_run_saved. cbn [snd].
    rewrite !userRegistry_saved, erase_insert_or_assign, Hloaded.
    rewrite !(erase_absent _ _ Habsent), fs_saved_saved.
    unfold saved. simpl. by apply insert_id.
  - rewrite add_then_remove_restores_loaded_registry; [done|].
    by rewrite Hloaded.
Qed.

(** C1: [pin(alias)] falls in one of three cases.  With an entry for
    [alias] in the User registry, the target of that entry is resolved and
    the entry is overwritten with the resolved reference (same keys as
    before), and the registry is persisted.  With no User entry and an entry
    in the Global registry, the Global target is resolved and a new User
    entry is inserted under [alias] (one key more), and the registry is
    persisted.  With an entry in neither, [pin] throws [UnknownAliasError]
    and the world is left as it was.  The concrete reference is the
    [resolvedRef] that the evaluator returned. *)
Theorem pin_three_cases (alias : FlakeUri) (w : World) :
  let k := FlakeRef_of alias in
  let user := userRegistry w in
  (∀ target f,
      find k user = Some target →
      getFlake target true = Ok f →
      let r' := insert_or_assign k (resolvedRef (sourceInfo f)) user in
      CmdFlakePin_run alias w = (Ok tt, saved r' w)
      ∧ find k r' = Some (resolvedRef (sourceInfo f))
      ∧ (∀ k', k' ≠ k → find k' r' = find k' user)
      ∧ dom (entries r') = dom (entries user))
  ∧ (∀ target f,
      find k user = None →
      find k (globalRegistry w) = Some target →
      getFlake target true = Ok f →
      let r' := insert_or_assign k (resolvedRef (sourceInfo f)) user in
      CmdFlakePin_run alias w = (Ok tt, saved r' w)
      ∧ find k r' = Some (resolvedRef (sourceInfo f))
      ∧ (∀ k', k' ≠ k → find k' r' = find k' user)
      ∧ dom (entries r') = {[k]} ∪ dom (entries user)
      ∧ k ∉ dom (entries user))
  ∧ (find k user = None →
     find k (globalRegistry w) = None →
     CmdFlakePin_run alias w = (Throw (UnknownAliasError alias), w)).
Proof.
  intros k user. split_and!.
  - intros target f Hu Hf r'. split_and!.
    + rewrite CmdFlakePin_run_cases. fold k user. by rewrite Hu, Hf.
    + subst r'. rewrite find_insert_or_assign. by rewrite decide_True.
    + intros k' Hk'. subst r'. rewrite find_insert_or_assign.
      by rewrite decide_False.
    + subst r'. unfold insert_or_assign. simpl. rewrite dom_insert_L.
      unfold find in Hu. apply elem_of_dom_2 in Hu. apply subseteq_union_1_L.
      by apply singleton_subseteq_l.
  - intros target f Hu Hg Hf r'. split_and!.
    + rewrite CmdFlakePin_run_cases. fold k user. by rewrite Hu, Hg, Hf.
    + subst r'. rewrite find_insert_or_assign. by rewrite decide_True.
    + intros k' Hk'. subst r'. rewrite find_insert_or_assign.
      by rewrite decide_False.
    + subst r'. unfold insert_or_assign. simpl. apply dom_insert_L.
    + by apply not_elem_of_dom.
  - intros Hu Hg. rewrite CmdFlakePin_run_cases. fold k user. by rewrite Hu, Hg.
Qed.

(** C6: [pin] never writes to the Global registry: in every branch the
    Global registry is the same afterwards, and every file other than the
    User registry file is as before.  For an alias with no User entry and a
    Global entry, the User registry loaded afterwards is the former one with
    a new entry for [alias]. *)
Theorem pin_leaves_global_untouched (alias : FlakeUri) (w : World) :
  let k := FlakeRef_of alias in
  let w' := exec (CmdFlakePin_run alias) w in
  globalRegistry w' = globalRegistry w
  ∧ (∀ p, p ≠ getUserRegistryPath → fs w' !! p = fs w !! p)
  ∧ (∀ target f,
      find k (userRegistry w) = None →
      find k (globalRegistry w) = Some target →
      getFlake target true = Ok f →
      userRegistry w'
        = insert_or_assign k (resolvedRef (sourceInfo f)) (userRegistry w)
      ∧ find k (userRegistry w') = Some (resolvedRef (sourceInfo f))
      ∧ size (entries (userRegistry w')) = S (size (entries (userRegistry w)))).
Proof using load_save.
  intros k w'. subst w'. unfold exec. rewrite CmdFlakePin_run_cases. fold k.
  split_and!.
  - destruct (find k (userRegistry w)) as [t|].
    + by destruct (getFlake t true).
    + destruct (find k (globalRegistry w)) as [t|]; [|done].
      by destruct (getFlake t true).
  - intros p Hp.
    destruct (find k (userRegistry w)) as [t|].
    + destruct (getFlake t true); [|done]. simpl. by rewrite lookup_insert_ne.
    + destruct (find k (globalRegistry w)) as [t|]; [|done].
      destruct (getFlake t true); [|done]. simpl. by rewrite lookup_insert_ne.
  - intros target f Hu Hg Hf. rewrite Hu, Hg, Hf. cbn [snd].
    rewrite userRegistry_saved. split_and!.
    + done.
    + rewrite find_insert_or_assign. by rewrite decide_True.
    + unfold insert_or_assign. simpl. by apply map_size_insert_None.
Qed.

(** C7: [pin] is idempotent.  When the evaluator, asked to resolve a
    reference it returned as resolved, returns that same reference, pinning
    an alias twice in a row leaves the same file system, hence the same
    persisted User entry, as pinning it once. *)
Theorem pin_idempotent (alias : FlakeUri) (w : World) :
  (∀ target f f',
      getFlake target true = Ok f →
      getFlake (resolvedRef (sourceInfo f)) true = Ok f' →
      resolvedRef (sourceInfo f') = resolvedRef (sourceInfo f)) →
  fs (exec (CmdFlakePin_run alias) (exec (CmdFlakePin_run alias) w))
    = fs (exec (CmdFlakePin_run alias) w).
Proof using load_save.
  intros Hstable.
  set (k := FlakeRef_of alias).
  assert (∀ target f w0,
    getFlake target true = Ok f →
    let w1 := saved (insert_or_assign k (resolvedRef (sourceInfo f)) (userRegistry w0)) w0 in
    fs (exec (CmdFlakePin_run alias) w1) = fs w1) as Hsecond.
  { intros target f w0 Hf w1. unfold exec. rewrite CmdFlakePin_run_cases. fold k.
    subst w1. rewrite userRegistry_saved, find_insert_or_assign.
    rewrite decide_True by done.
    destruct (getFlake (resolvedRef (sourceInfo f)) true) as [f'|e] eqn:Hf'; [|done].
    cbn [snd]. rewrite (Hstable _ _ _ Hf Hf'), insert_or_assign_twice.
    apply fs_saved_saved. }
  unfold exec at 2 3. rewrite CmdFlakePin_run_cases. fold k.
  destruct (find k (userRegistry w)) as [t|] eqn:Hu.
  - destruct (getFlake t true) as [f|e] eqn:Hf.
    + cbn [snd]. by apply (Hsecond t).
    + cbn [snd]. unfold exec. rewrite CmdFlakePin_run_cases. fold k.
      by rewrite Hu, Hf.
  - destruct (find k (globalRegistry w)) as [t|] eqn:Hg.
    + destruct (getFlake t true) as [f|e] eqn:Hf.
      * cbn [snd]. by apply (Hsecond t).
      * cbn [snd]. unfold exec. rewrite CmdFlakePin_run_cases. fold k.
        by rewrite Hu, Hg, Hf.
    + cbn [snd]. unfold exec. rewrite CmdFlakePin_run_cases. fold k.
      by rewrite Hu, Hg.
Qed.

Lemma while_todo_level_order q w :
  while_todo q w = emits (level_order (queue_size q) q) w.
Proof.
  rewrite (while_todo_levels (queue_size q)), level_exhausted.
  by rewrite while_todo_equation_1.
Qed.

(** C3: the dependency listing serves a work queue.  The loop stops on the
    empty queue; otherwise it dequeues the front node, prints that node's
    non-flake dependencies, then prints the info of each of its flake
    dependencies and pushes it at the back.  Hence, for every resolved
    graph, what is printed is the blocks of the nodes level after level
    (the root's dependencies, then those of the root's flake dependencies,
    then those of their flake dependencies, ...), so a node's dependencies
    come before those of its flake dependencies; and for root -> {depA,
    depB}, depA -> {depC}, depA and depB are printed before depC. *)
Theorem deps_breadth_first :
  (∀ w, while_todo [] w = w)
  ∧ (∀ resFlake todo w,
        while_todo (resFlake :: todo) w
        = while_todo (todo ++ map snd (flakeDeps resFlake))
            (emits (map PrintNonFlakeInfo (nonFlakeDeps resFlake)
                    ++ map (λ info, PrintFlakeInfo (flake info.2))
                         (flakeDeps resFlake)) w))
  ∧ (∀ flakeUri registryOverrides mode root w,
        resolveFlake registryOverrides (getFlakeRef flakeUri) mode = Ok root →
        CmdFlakeDeps_run flakeUri registryOverrides mode w
        = (Ok tt, emits (level_order (node_count root) [root]) w))
  ∧ (∀ fr fa fb fc ka kb kc nr na nb nc w,
        let depC := mkResolvedFlake fc [] nc in
        let depB := mkResolvedFlake fb [] nb in
        let depA := mkResolvedFlake fa [(kc, depC)] na in
        let root := mkResolvedFlake fr [(ka, depA); (kb, depB)] nr in
        trace (while_todo [root] w)
        = trace w
          ++ map PrintNonFlakeInfo nr ++ [PrintFlakeInfo fa; PrintFlakeInfo fb]
          ++ map PrintNonFlakeInfo na ++ [PrintFlakeInfo fc]
          ++ map PrintNonFlakeInfo nb
          ++ map PrintNonFlakeInfo nc).
Proof.
  split_and!.
  - intros w. by rewrite while_todo_equation_1.
  - intros resFlake todo w. apply while_todo_cons.
  - intros flakeUri registryOverrides mode root w Hroot.
    unfold CmdFlakeDeps_run, bind, lift. rewrite Hroot.
    rewrite while_todo_level_order. unfold queue_size. simpl.
    by rewrite Nat.add_0_r.
  - intros. subst root depA depB depC.
    do 4 (rewrite while_todo_cons; unfold children, block; simpl).
    rewrite while_todo_equation_1. simpl.
    rewrite !app_nil_r, <- !app_assoc. done.
Qed.


(** C2: the lock-file update is invoked exactly when the root reference
    holds a path.  For a path, [updateLockFile(flakeRef, true)] is called
    and the command returns; for any other reference the command throws
    [NotUpdatableError] and the world is left as it was. *)
Theorem update_only_for_paths (flakeUri : string) (w : World) :
  let flakeRef := getFlakeRef flakeUri in
  (∀ path, data flakeRef = IsPath path →
     CmdFlakeUpdate_run flakeUri w
     = (Ok tt, emits [UpdateLockFile flakeRef true] w))
  ∧ ((∀ path, data flakeRef ≠ IsPath path) →
     CmdFlakeUpdate_run flakeUri w = (Throw (NotUpdatableError flakeRef), w))
  ∧ (∀ w', CmdFlakeUpdate_run flakeUri w = (Ok tt, w') →
     ∃ path, data flakeRef = IsPath path).
Proof.
  intros flakeRef. unfold CmdFlakeUpdate_run. fold flakeRef. split_and!.
  - intros path ->. done.
  - intros Hnot. destruct (data flakeRef) as [a|u|path]; try done.
    by destruct (Hnot path).
  - intros w'. destruct (data flakeRef) as [a|u|path]; simpl; try done. eauto.
Qed.

Lemma CmdFlakeInit_run_cases w :
  CmdFlakeInit_run w =
  match fs w !! (absPath "." +:+ "/.git"), fs w !! (absPath "." +:+ "/flake.nix") with
  | None, _ => (Throw (NotAGitRepository (absPath ".")), w)
  | Some _, Some _ => (Throw (FileAlreadyExists (absPath "." +:+ "/flake.nix")), w)
  | Some _, None =>
      (Ok tt, {| fs := <[absPath "." +:+ "/flake.nix" := flakeTemplate]> (fs w);
                 globalRegistry := globalRegistry w;
                 trace := trace w
                   ++ [WriteFile (absPath "." +:+ "/flake.nix") flakeTemplate] |})
  end.
Proof.
  unfold CmdFlakeInit_run, bind, pathExists, gets, throw, writeFile. cbn beta.
  case_bool_decide as Hgit; simpl.
  - destruct Hgit as [g ->]. case_bool_decide as Hflake.
    + by destruct Hflake as [b ->].
    + by apply eq_None_not_Some in Hflake as ->.
  - by apply eq_None_not_Some in Hgit as ->.
Qed.

(** C10: [init] throws and writes nothing when [.git] is missing from the
    current directory, throws and writes nothing when [flake.nix] is
    already there, and writes the template to [flake.nix] only when both
    checks pass. *)
Theorem init_checks_then_writes (w : World) :
  let flakeDir := absPath "." in
  let flakePath := flakeDir +:+ "/flake.nix" in
  (fs w !! (flakeDir +:+ "/.git") = None →
     CmdFlakeInit_run w = (Throw (NotAGitRepository flakeDir), w))
  ∧ (is_Some (fs w !! (flakeDir +:+ "/.git")) → is_Some (fs w !! flakePath) →
     CmdFlakeInit_run w = (Throw (FileAlreadyExists flakePath), w))
  ∧ (is_Some (fs w !! flakePath) → ∃ e, CmdFlakeInit_run w = (Throw e, w))
  ∧ (is_Some (fs w !! (flakeDir +:+ "/.git")) → fs w !! flakePath = None →
     CmdFlakeInit_run w
     = (Ok tt, {| fs := <[flakePath := flakeTemplate]> (fs w);
                  globalRegistry := globalRegistry w;
                  trace := trace w ++ [WriteFile flakePath flakeTemplate] |}))
  ∧ (∀ w', CmdFlakeInit_run w = (Ok tt, w') →
     is_Some (fs w !! (flakeDir +:+ "/.git")) ∧ fs w !! flakePath = None).
Proof.
  intros flakeDir flakePath. rewrite CmdFlakeInit_run_cases.
  fold flakeDir. fold flakePath.
  destruct (fs w !! (flakeDir +:+ "/.git")) as [g|];
    destruct (fs w !! flakePath) as [b|]; simpl.
  all: split_and!; try done; eauto.
  all: try (by intros [? ?]).
  all: try (by intros _ [? ?]).
  all: try (by intros ? [? ?]).
Qed.

(** ** How the registry commands compose *)

Lemma exec_CmdFlakeAdd_run alias uri w :
  exec (CmdFlakeAdd_run alias uri) w =
  saved (insert_or_assign (FlakeRef_of alias) (FlakeRef_of uri)
           (erase (FlakeRef_of alias) (userRegistry w))) w.
Proof. reflexivity. Qed.

Lemma exec_CmdFlakeRemove_run alias w :
  exec (CmdFlakeRemove_run alias) w =
  saved (erase (FlakeRef_of alias) (userRegistry w)) w.
Proof. reflexivity. Qed.

(** Equations between registries built with [erase] and
    [insert_or_assign], key by key. *)
Ltac registry_eq :=
  apply FlakeRegistry_eq; intros ?;
  repeat (rewrite find_insert_or_assign || rewrite find_erase);
  repeat case_decide; subst; congruence.

(** X1: what [add(alias, target)] persists does not depend on what an
    earlier [add] or [remove] of the same alias did: run after either, it
    leaves the file system it would have left without it. *)
Theorem add_overrides_earlier (alias uri uri' : FlakeUri) (w : World) :
  fs (exec (CmdFlakeAdd_run alias uri) (exec (CmdFlakeAdd_run alias uri') w))
    = fs (exec (CmdFlakeAdd_run alias uri) w)
  ∧ fs (exec (CmdFlakeAdd_run alias uri) (exec (CmdFlakeRemove_run alias) w))
    = fs (exec (CmdFlakeAdd_run alias uri) w).
Proof using load_save.
  rewrite !exec_CmdFlakeAdd_run, !exec_CmdFlakeRemove_run, !userRegistry_saved.
  rewrite !fs_saved_saved.
  split; apply (f_equal (λ r, fs (saved r w))); registry_eq.
Qed.

(** X2: [remove(alias)] after an [add] or a [remove] of the same alias
    leaves the file system that [remove(alias)] alone would have left; so
    [add] then [remove] is [remove], and [remove] is idempotent. *)
Theorem remove_overrides_earlier (alias uri : FlakeUri) (w : World) :
  fs (exec (CmdFlakeRemove_run alias) (exec (CmdFlakeAdd_run alias uri) w))
    = fs (exec (CmdFlakeRemove_run alias) w)
  ∧ fs (exec (CmdFlakeRemove_run alias) (exec (CmdFlakeRemove_run alias) w))
    = fs (exec (CmdFlakeRemove_run alias) w).
Proof using load_save.
  rewrite !exec_CmdFlakeAdd_run, !exec_CmdFlakeRemove_run, !userRegistry_saved.
  rewrite !fs_saved_saved.
  split; apply (f_equal (λ r, fs (saved r w))); registry_eq.
Qed.


(** X4: [add] and [remove] write the User registry file, once, and touch
    nothing else: every other path of the file system and the Global
    registry are as before, and the trace gains that one write. *)
Theorem add_remove_write_only_user_file (alias uri : FlakeUri) (w : World) :
  let touched w' :=
    (∀ p, p ≠ getUserRegistryPath → fs w' !! p = fs w !! p)
    ∧ globalRegistry w' = globalRegistry w
    ∧ ∃ bytes, trace w' = trace w ++ [WriteFile getUserRegistryPath bytes]
              ∧ fs w' !! getUserRegistryPath = Some bytes in
  touched (exec (CmdFlakeAdd_run alias uri) w)
  ∧ touched (exec (CmdFlakeRemove_run alias) w).
Proof.
  intros touched. subst touched.
  rewrite exec_CmdFlakeAdd_run, exec_CmdFlakeRemove_run. unfold saved. simpl.
  split; split_and!; try done.
  - intros p Hp. by rewrite lookup_insert_ne.
  - eexists. split; [done|]. apply lookup_insert_eq.
  - intros p Hp. by rewrite lookup_insert_ne.
  - eexists. split; [done|]. apply lookup_insert_eq.
Qed.

(** X5: a failed [pin] changes nothing.  Whatever it throws, the world is
    the one it started from; and an error of the evaluator, on the User
    target or on the Global one, is the error [pin] throws. *)
Theorem pin_failure_leaves_world (alias : FlakeUri) (w : World) :
  let k := FlakeRef_of alias in
  (∀ e w', CmdFlakePin_run alias w = (Throw e, w') → w' = w)
  ∧ (∀ target e,
       find k (userRegistry w) = Some target →
       getFlake target true = Throw e →
       CmdFlakePin_run alias w = (Throw e, w))
  ∧ (∀ target e,
       find k (userRegistry w) = None →
       find k (globalRegistry w) = Some target →
       getFlake target true = Throw e →
       CmdFlakePin_run alias w = (Throw e, w)).
Proof.
  intros k. rewrite CmdFlakePin_run_cases. fold k. split_and!.
  - intros e w'.
    destruct (find k (userRegistry w)) as [t|].
    + destruct (getFlake t true); [done|]. by intros [= _ <-].
    + destruct (find k (globalRegistry w)) as [t|]; [|by intros [= _ <-]].
      destruct (getFlake t true); [done|]. by intros [= _ <-].
  - intros target e Hu Hf. by rewrite Hu, Hf.
  - intros target e Hu Hg Hf. by rewrite Hu, Hg, Hf.
Qed.

(** X7: [pin] after [add] pins what was added: when the evaluator resolves
    the added target, the User registry loaded afterwards maps [alias] to
    the resolved reference and is otherwise the registry before the [add];
    the Global registry is not consulted. *)
Theorem add_then_pin (alias uri : FlakeUri) (f : Flake) (w : World) :
  getFlake (FlakeRef_of uri) true = Ok f →
  let k := FlakeRef_of alias in
  let w' := exec (CmdFlakePin_run alias) (exec (CmdFlakeAdd_run alias uri) w) in
  userRegistry w'
    = insert_or_assign k (resolvedRef (sourceInfo f)) (erase k (userRegistry w))
  ∧ find k (userRegistry w') = Some (resolvedRef (sourceInfo f))
  ∧ (∀ k', k' ≠ k → find k' (userRegistry w') = find k' (userRegistry w)).
Proof using load_save.
  intros Hf k w'.
  assert (userRegistry w'
    = insert_or_assign k (resolvedRef (sourceInfo f)) (erase k (userRegistry w)))
    as Hreg.
  { subst w'. rewrite exec_CmdFlakeAdd_run. unfold exec.
    rewrite CmdFlakePin_run_cases, userRegistry_saved. fold k.
    rewrite find_insert_or_assign, decide_True by done. rewrite Hf. cbn [snd].
    rewrite userRegistry_saved. registry_eq. }
  rewrite Hreg. split_and!; [done| |].
  - rewrite find_insert_or_assign. by rewrite decide_True.
  - intros k' Hk'. rewrite find_insert_or_assign, find_erase.
    by rewrite !decide_False.
Qed.

(** X8: [pin] after [remove] falls back to the Global registry: with a
    Global entry that the evaluator resolves, the User registry gets the
    alias back, bound to the resolved Global target; with no Global entry,
    [pin] throws [UnknownAliasError] and leaves what [remove] wrote. *)
Theorem remove_then_pin_falls_back (alias : FlakeUri) (w : World) :
  let k := FlakeRef_of alias in
  let w1 := exec (CmdFlakeRemove_run alias) w in
  (∀ target f,
      find k (globalRegistry w) = Some target →
      getFlake target true = Ok f →
      userRegistry (exec (CmdFlakePin_run alias) w1)
      = insert_or_assign k (resolvedRef (sourceInfo f)) (erase k (userRegistry w)))
  ∧ (find k (globalRegistry w) = None →
     CmdFlakePin_run alias w1 = (Throw (UnknownAliasError alias), w1)).
Proof using load_save.
  intros k w1. subst w1. rewrite exec_CmdFlakeRemove_run. unfold exec.
  rewrite CmdFlakePin_run_cases, userRegistry_saved. fold k.
  rewrite find_erase, decide_True by done.
  assert (∀ r, globalRegistry (saved r w) = globalRegistry w) as -> by done.
  split.
  - intros target f Hg Hf. rewrite Hg, Hf. cbn [snd].
    by rewrite userRegistry_saved.
  - intros Hg. by rewrite Hg.
Qed.

(** ** More on [init] and on the dependency listing *)

(** X9: [init] touches nothing but [flake.nix], and it runs once: after a
    run that returned, [flake.nix] holds the template and a second run
    throws [FileAlreadyExists] and leaves the world as the first run left
    it. *)
Theorem init_runs_once (w : World) :
  let flakePath := absPath "." +:+ "/flake.nix" in
  let w1 := exec CmdFlakeInit_run w in
  (∀ p, p ≠ flakePath → fs w1 !! p = fs w !! p)
  ∧ ((CmdFlakeInit_run w).1 = Ok tt →
     fs w1 !! flakePath = Some flakeTemplate
     ∧ CmdFlakeInit_run w1 = (Throw (FileAlreadyExists flakePath), w1)).
Proof.
  intros flakePath w1. subst w1. unfold exec.
  rewrite (CmdFlakeInit_run_cases w). fold flakePath.
  destruct (fs w !! (absPath "." +:+ "/.git")) as [g|] eqn:Hgit;
    [destruct (fs w !! flakePath) as [b|] eqn:Hflake|]; cbn [fst snd fs].
  - split; [done|]. done.
  - split.
    + intros p Hp. by rewrite lookup_insert_ne.
    + intros _. split; [apply lookup_insert_eq|].
      rewrite CmdFlakeInit_run_cases. fold flakePath. cbn [fs].
      rewrite lookup_insert_eq.
      destruct (decide (flakePath = absPath "." +:+ "/.git")) as [E|E].
      * by rewrite <- E, lookup_insert_eq.
      * by rewrite lookup_insert_ne, Hgit.
  - split; [done|]. done.
Qed.

Lemma all_deps_unfold n :
  all_deps n = block n ++ flat_map all_deps (children n).
Proof.
  destruct n as [f deps nonFlakes]. unfold block, children. simpl.
  rewrite <- app_assoc. do 2 f_equal.
  induction deps as [|info deps IH]; simpl; [done|]. by rewrite IH.
Qed.

Lemma node_count_children n : node_count n = S (queue_size (children n)).
Proof.
  destruct n as [f deps nonFlakes]. unfold children, queue_size. simpl.
  by rewrite map_map.
Qed.

Lemma while_todo_all_deps q w :
  ∃ out, while_todo q w = emits out w ∧ out ≡ₚ flat_map all_deps q.
Proof.
  remember (S (queue_size q)) as bound eqn:Hbound.
  assert (queue_size q < bound) as Hlt by lia. clear Hbound.
  revert q w Hlt. induction bound as [|bound IH]; intros q w Hlt; [lia|].
  destruct q as [|n q].
  - exists []. by rewrite while_todo_equation_1, emits_nil.
  - rewrite while_todo_cons.
    destruct (IH (q ++ children n) (emits (block n) w)) as (out & Hrun & Hperm).
    { rewrite queue_size_app. pose proof (node_count_children n).
      unfold queue_size in *. simpl in *. lia. }
    exists (block n ++ out). split.
    + by rewrite Hrun, emits_emits.
    + rewrite Hperm, flat_map_app. simpl. rewrite all_deps_unfold, <- app_assoc.
      f_equiv. apply Permutation_app_comm.
Qed.

(** X10: the listing is complete and without repetition: what
    [CmdFlakeDeps::run] prints for a resolved root is a rearrangement of
    the dependencies of every node of the tree, each taken once. *)
Theorem deps_lists_every_dependency_once
    (flakeUri : string) (registryOverrides : list (string * string))
    (mode : LockFileMode) (root : ResolvedFlake) (w : World) :
  resolveFlake registryOverrides (getFlakeRef flakeUri) mode = Ok root →
  ∃ out,
    CmdFlakeDeps_run flakeUri registryOverrides mode w = (Ok tt, emits out w)
    ∧ out ≡ₚ all_deps root.
Proof.
  intros Hroot. unfold CmdFlakeDeps_run, bind, lift. rewrite Hroot.
  destruct (while_todo_all_deps [root] w) as (out & Hrun & Hperm).
  exists out. split; [by rewrite Hrun|].
  rewrite Hperm. simpl. by rewrite app_nil_r.
Qed.

Lemma flake_infos_app es1 es2 :
  flake_infos (es1 ++ es2) = flake_infos es1 ++ flake_infos es2.
Proof. apply omap_app. Qed.

Lemma length_flake_infos_block n :
  length (flake_infos (block n)) = length (children n).
Proof.
  unfold block, children. rewrite flake_infos_app, length_app, length_map.
  assert (∀ l : list NonFlake, flake_infos (map PrintNonFlakeInfo l) = []) as ->.
  { intros l. induction l as [|x l IH]; [done|]. simpl. apply IH. }
  simpl. generalize (flakeDeps n). intros deps.
  induction deps as [|info deps IH]; [done|]. simpl. by f_equal.
Qed.

Lemma length_flake_infos_all_deps q :
  length (flake_infos (flat_map all_deps q)) + length q = queue_size q.
Proof.
  remember (S (queue_size q)) as bound eqn:Hbound.
  assert (queue_size q < bound) as Hlt by lia. clear Hbound.
  revert q Hlt. induction bound as [|bound IH]; intros q Hlt; [lia|].
  destruct q as [|n q]; [done|].
  pose proof (node_count_children n) as Hn.
  assert (queue_size (n :: q) = node_count n + queue_size q) as Hq by done.
  simpl. rewrite all_deps_unfold, !flake_infos_app, !length_app.
  rewrite length_flake_infos_block.
  pose proof (IH (children n) ltac:(lia)).
  pose proof (IH q ltac:(lia)). lia.
Qed.

(** X11: the listing prints one flake info for every flake dependency of
    the tree and none for the root: [node_count root - 1] of them. *)
Theorem deps_prints_every_node_but_the_root (root : ResolvedFlake) (w : World) :
  ∃ out,
    while_todo [root] w = emits out w
    ∧ length (flake_infos out) + 1 = node_count root.
Proof.
  destruct (while_todo_all_deps [root] w) as (out & Hrun & Hperm).
  exists out. split; [done|].
  assert (flake_infos out ≡ₚ flake_infos (flat_map all_deps [root])) as ->.
  { unfold flake_infos. by rewrite Hperm. }
  pose proof (length_flake_infos_all_deps [root]) as H.
  unfold queue_size in H. simpl in *. lia.
Qed.

Lemma Forall_is_print_block n : Forall is_print (block n).
Proof.
  unfold block. apply Forall_app. split; apply Forall_forall; intros e He.
  - apply list_elem_of_In, in_map_iff in He as (x & <- & _). done.
  - apply list_elem_of_In, in_map_iff in He as (x & <- & _). done.
Qed.

Lemma Forall_is_print_level_order d q : Forall is_print (level_order d q).
Proof.
  unfold level_order. generalize (seq 0 d). intros l.
  induction l as [|i l IH]; simpl; [done|].
  apply Forall_app. split; [|done].
  generalize (level i q). intros ns.
  induction ns as [|n ns IHn]; simpl; [done|].
  apply Forall_app. split; [apply Forall_is_print_block | done].
Qed.

(** X12: the listing loop only prints: whatever the queue, it leaves the
    file system and the Global registry as they were, and what it adds to
    the trace is made of [printFlakeInfo] and [printNonFlakeInfo] events
    only. *)
Theorem deps_only_prints (todo : list ResolvedFlake) (w : World) :
  fs (while_todo todo w) = fs w
  ∧ globalRegistry (while_todo todo w) = globalRegistry w
  ∧ ∃ out, trace (while_todo todo w) = trace w ++ out ∧ Forall is_print out.
Proof.
  rewrite while_todo_level_order. split_and!; try done.
  eexists. split; [done|]. apply Forall_is_print_level_order.
Qed.

(** ** What the output functions report *)


Lemma lookup_sourceInfoToJson si j key :
  sourceInfoToJson si j !! key =
  if decide (key = "path") then Some (JString (storePath si))
  else if decide (key = "revCount") then
    match revCount si with
    | Some count => Some (JNumber count)
    | None => j !! key
    end
  else if decide (key = "revision") then
    match rev (resolvedRef si) with
    | Some hash => Some (JString (Hash_to_string hash))
    | None => j !! key
    end
  else if decide (key = "branch") then
    match ref (resolvedRef si) with
    | Some branch => Some (JString branch)
    | None => j !! key
    end
  else if decide (key = "uri") then
    Some (JString (FlakeRef_to_string (resolvedRef si)))
  else j !! key.
Proof.
  unfold sourceInfoToJson.
  destruct (ref (resolvedRef si)), (rev (resolvedRef si)), (revCount si);
    repeat (rewrite lookup_insert; case_decide; subst; simpl; try done);
    repeat (case_decide; subst; try done).
Qed.

(** X13: [sourceInfoToJson] adds to the object it is given and clears
    nothing: every key other than its own five is left as it was, no key
    of the object disappears, and the key of an optional field that is
    absent ([branch], [revision], [revCount]) keeps whatever the object
    held under it. *)
Theorem sourceInfoToJson_keeps_other_keys
    (si : SourceInfo) (j : gmap string Json) :
  (∀ key, key ∉ ["uri"; "branch"; "revision"; "revCount"; "path"] →
          sourceInfoToJson si j !! key = j !! key)
  ∧ dom j ⊆ dom (sourceInfoToJson si j)
  ∧ (ref (resolvedRef si) = None →
     sourceInfoToJson si j !! "branch" = j !! "branch")
  ∧ (rev (resolvedRef si) = None →
     sourceInfoToJson si j !! "revision" = j !! "revision")
  ∧ (revCount si = None →
     sourceInfoToJson si j !! "revCount" = j !! "revCount").
Proof.
  split_and!.
  - intros key Hkey. rewrite lookup_sourceInfoToJson.
    repeat (case_decide; [subst; exfalso; apply Hkey; by repeat constructor|]). done.
  - intros key [v Hv]%elem_of_dom. apply elem_of_dom.
    rewrite lookup_sourceInfoToJson.
    repeat case_decide; repeat case_match; eauto.
  - intros H. rewrite lookup_sourceInfoToJson, H. done.
  - intros H. rewrite lookup_sourceInfoToJson, H. done.
  - intros H. rewrite lookup_sourceInfoToJson, H. done.
Qed.

(** X14: [flakeToJson] loses no field: [id], [description] and [epoch]
    are still there after the source info is added, the URI and the path
    are there, and each of [branch], [revision] and [revCount] is there
    exactly when the field is, with its value; [nonFlakeToJson] holds the
    alias under [id]. *)
Theorem flakeToJson_fields (f : Flake) (nonFlake : NonFlake) :
  let si := sourceInfo f in
  flakeToJson f !! "id" = Some (JString (id f))
  ∧ flakeToJson f !! "description" = Some (JString (description f))
  ∧ flakeToJson f !! "epoch" = Some (JNumber (epoch f))
  ∧ flakeToJson f !! "uri" = Some (JString (FlakeRef_to_string (resolvedRef si)))
  ∧ flakeToJson f !! "branch" = JString <$> ref (resolvedRef si)
  ∧ flakeToJson f !! "revision"
    = (λ hash, JString (Hash_to_string hash)) <$> rev (resolvedRef si)
  ∧ flakeToJson f !! "revCount" = JNumber <$> revCount si
  ∧ flakeToJson f !! "path" = Some (JString (storePath si))
  ∧ nonFlakeToJson nonFlake !! "id" = Some (JString (nonFlake_alias nonFlake)).
Proof.
  intros si. unfold flakeToJson, nonFlakeToJson. fold si.
  rewrite !lookup_sourceInfoToJson. simpl.
  destruct (ref (resolvedRef si)), (rev (resolvedRef si)), (revCount si);
    by split_and!.
Qed.



Lemma print_entries_app layer r cout :
  print_entries layer r cout
  = cout ++ (entry_line layer <$> map_to_list (entries r)).
Proof.
  unfold print_entries. generalize (map_to_list (entries r)). intros l.
  revert cout. induction l as [|entry l IH]; intros cout; simpl.
  - by rewrite app_nil_r.
  - rewrite IH, <- app_assoc. done.
Qed.

(** X16: [CmdFlakeList::run] lists every entry of every layer, the flag
    registry first, then the User registry, then the Global one, and hides
    nothing: it writes one line for each entry of each registry, and an
    alias bound in both the User and the Global registry is listed twice,
    the User line before the Global line. *)
Theorem list_shows_every_layer
    (registries : RegistryName → FlakeRegistry) (cout : list string) :
  length (CmdFlakeList_run registries cout)
  = length cout
    + size (entries (registries FLAG_REGISTRY))
    + size (entries (registries USER_REGISTRY))
    + size (entries (registries GLOBAL_REGISTRY))
  ∧ (∀ k v, find k (registries FLAG_REGISTRY) = Some v →
            entry_line " flags " (k, v) ∈ CmdFlakeList_run registries cout)
  ∧ (∀ k v, find k (registries USER_REGISTRY) = Some v →
            entry_line " user " (k, v) ∈ CmdFlakeList_run registries cout)
  ∧ (∀ k v, find k (registries GLOBAL_REGISTRY) = Some v →
            entry_line " global " (k, v) ∈ CmdFlakeList_run registries cout)
  ∧ (∀ k user_target global_target,
       find k (registries USER_REGISTRY) = Some user_target →
       find k (registries GLOBAL_REGISTRY) = Some global_target →
       ∃ before between after,
         CmdFlakeList_run registries cout
         = before ++ [entry_line " user " (k, user_target)]
           ++ between ++ [entry_line " global " (k, global_target)]
           ++ after).
Proof.
  unfold CmdFlakeList_run. rewrite !print_entries_app.
  assert (∀ layer r k v, find k r = Some v →
            entry_line layer (k, v) ∈ entry_line layer <$> map_to_list (entries r))
    as Hin.
  { intros layer r k v Hk. apply list_elem_of_fmap_2.
    by apply elem_of_map_to_list. }
  split_and!.
  - rewrite !length_app, !length_fmap, !length_map_to_list. lia.
  - intros k v Hk. rewrite !elem_of_app. eauto.
  - intros k v Hk. rewrite !elem_of_app. eauto.
  - intros k v Hk. rewrite !elem_of_app. eauto.
  - intros k vu vg Hu Hg.
    apply (Hin " user ") in Hu. apply (Hin " global ") in Hg.
    apply list_elem_of_split in Hu as (u1 & u2 & ->).
    apply list_elem_of_split in Hg as (g1 & g2 & ->).
    exists ((cout ++ (entry_line " flags "
                        <$> map_to_list (entries (registries FLAG_REGISTRY)))) ++ u1),
      (u2 ++ g1), g2.
    by rewrite <- !app_assoc.
Qed.

End Commands.

(** ** The constructor of a reference, from the spec *)







(** ** A concrete instance of the collaborators

    References are built from the argument text; a registry is persisted
    as its sequence of (alias, target) records; the evaluator resolves a
    reference to a fixed revision of it. *)

Definition aliasRef (s : string) : FlakeRef := mkFlakeRef (IsAlias s) None None.
Definition uriRef (s : string) : FlakeRef := mkFlakeRef (IsURI s) None None.
Definition pathRef (s : string) (flag : bool) : FlakeRef :=
  mkFlakeRef (IsPath s) None None.

Definition registryRecords (r : FlakeRegistry) : list (FlakeRef * FlakeRef) :=
  map_to_list (entries r).

Definition recordsRegistry (l : list (FlakeRef * FlakeRef)) : FlakeRegistry :=
  {| entries := list_to_map l |}.

Definition evalAt (revision : string) (r : FlakeRef) (flag : bool) : Result Flake :=
  Ok (mkFlake "flake" "a flake" 0
        (mkSourceInfo (mkFlakeRef (data r) (ref r) (Some revision)) None "/store")).

Definition registryFile : Path := "registry.json".

Definition demo_user : FlakeRegistry :=
  {| entries := {[ aliasRef "nixpkgs" := uriRef "github:NixOS/nixpkgs" ]} |}.

Definition demo_global : FlakeRegistry :=
  {| entries := <[ aliasRef "nixpkgs" := uriRef "github:edolstra/nixpkgs" ]>
                  {[ aliasRef "dwarffs" := uriRef "github:edolstra/dwarffs" ]} |}.

Definition demo_world : World :=
  {| fs := {[ registryFile := registryRecords demo_user ]};
     globalRegistry := demo_global;
     trace := [] |}.

Definition demo_add := CmdFlakeAdd_run aliasRef registryFile registryRecords recordsRegistry.
Definition demo_remove := CmdFlakeRemove_run aliasRef registryFile registryRecords recordsRegistry.
Definition demo_pin :=
  CmdFlakePin_run aliasRef registryFile (evalAt "r1") registryRecords recordsRegistry.


Definition demo_update := CmdFlakeUpdate_run (Bytes := list (FlakeRef * FlakeRef))
  aliasRef pathRef.

(** The graph root -> {depA, depB}, depA -> {depC}. *)
Definition demo_flake (name : string) : Flake :=
  mkFlake name "a flake" 0 (mkSourceInfo (uriRef name) None "/store").

Definition depC : ResolvedFlake := mkResolvedFlake (demo_flake "depC") [] [].
Definition depB : ResolvedFlake := mkResolvedFlake (demo_flake "depB") [] [].
Definition depA : ResolvedFlake :=
  mkResolvedFlake (demo_flake "depA") [("depC", depC)] [].
Definition demo_root : ResolvedFlake :=
  mkResolvedFlake (demo_flake "root") [("depA", depA); ("depB", depB)] [].

Definition demo_resolveFlake (overrides : list (string * string))
    (r : FlakeRef) (mode : LockFileMode) : Result ResolvedFlake :=
  Ok demo_root.

Definition demo_deps :=
  CmdFlakeDeps_run (Bytes := list (FlakeRef * FlakeRef))
    aliasRef pathRef demo_resolveFlake.

Definition demo_absPath (p : Path) : Path :=
  if String.eqb p "." then "/work" else p.

Definition demo_init := CmdFlakeInit_run demo_absPath "{ }".

Definition work_tree (paths : list Path) : World :=
  {| fs := list_to_map ((λ p, (p, "#")) <$> paths);
     globalRegistry := {| entries := ∅ |};
     trace := [] |}.

(** An evaluator that finds no flake. *)
Definition evalFail (r : FlakeRef) (flag : bool) : Result Flake :=
  Throw (EvalError "no such flake").

Definition demo_pin_failing :=
  CmdFlakePin_run aliasRef registryFile evalFail registryRecords recordsRegistry.

(** A reference printed as its locator. *)
Definition locator (r : FlakeRef) : string :=
  match data r with
  | IsAlias alias => alias
  | IsURI uri => uri
  | IsPath path => path
  end.

Definition demo_registries (name : RegistryName) : FlakeRegistry :=
  match name with
  | FLAG_REGISTRY => {| entries := ∅ |}
  | USER_REGISTRY => demo_user
  | GLOBAL_REGISTRY => demo_global
  end.

Definition demo_sourceInfo : SourceInfo :=
  mkSourceInfo (mkFlakeRef (IsURI "github:NixOS/nixpkgs") None (Some "r1"))
    None "/store".

(** ** The commands on the concrete instance *)

Lemma recordsRegistry_registryRecords r : recordsRegistry (registryRecords r) = r.
Proof.
  destruct r as [m]. unfold recordsRegistry, registryRecords. simpl.
  by rewrite list_to_map_to_list.
Qed.

Example demo_pin_user :
  fs (exec (demo_pin "nixpkgs") demo_world) !! registryFile
  = Some [(aliasRef "nixpkgs",
           mkFlakeRef (IsURI "github:NixOS/nixpkgs") None (Some "r1"))].
Proof. vm_compute. reflexivity. Qed.

(** C4, as stated, fails: with an entry for the alias already in the User
    registry, [add] replaces it and [remove] deletes it, so the persisted
    registry ends without the entry it had. *)
Lemma add_then_remove_loses_existing_entry :
  fs demo_world !! registryFile
    = Some (registryRecords demo_user)
  ∧ find (aliasRef "nixpkgs") demo_user = Some (uriRef "github:NixOS/nixpkgs")
  ∧ fs (exec (demo_remove "nixpkgs")
          (exec (demo_add "nixpkgs" "github:other/nixpkgs") demo_world))
      !! registryFile
    = Some []
  ∧ fs (exec (demo_remove "nixpkgs")
          (exec (demo_add "nixpkgs" "github:other/nixpkgs") demo_world))
    ≠ fs demo_world.
Proof.
  split_and!.
  - vm_compute. reflexivity.
  - vm_compute. reflexivity.
  - vm_compute. reflexivity.
  - intros H. apply (f_equal (λ m, m !! registryFile)) in H.
    vm_compute in H. discriminate H.
Qed.

Lemma add_then_remove_restores_absent_witness :
  fs (exec (demo_remove "dwarffs")
        (exec (demo_add "dwarffs" "github:edolstra/dwarffs") demo_world))
  = fs demo_world.
Proof.
  apply (add_then_remove_restores_absent aliasRef registryFile
           registryRecords recordsRegistry recordsRegistry_registryRecords
           "dwarffs" "github:edolstra/dwarffs" demo_user demo_world).
  - vm_compute. reflexivity.
  - vm_compute. reflexivity.
Defined.

Lemma add_upserts_and_is_idempotent_witness :
  fs (exec (demo_add "nixpkgs" "github:other/nixpkgs")
        (exec (demo_add "nixpkgs" "github:other/nixpkgs") demo_world))
  = fs (exec (demo_add "nixpkgs" "github:other/nixpkgs") demo_world).
Proof.
  apply (add_upserts_and_is_idempotent aliasRef registryFile
           registryRecords recordsRegistry recordsRegistry_registryRecords
           "nixpkgs" "github:other/nixpkgs" demo_world).
Defined.

Lemma remove_deletes_and_persists_witness :
  demo_remove "dwarffs" demo_world
  = (Ok tt, saved registryFile registryRecords demo_user demo_world).
Proof.
  destruct (remove_deletes_and_persists aliasRef registryFile
              registryRecords recordsRegistry "dwarffs" demo_world)
    as (Hrun & _ & _ & _ & _ & Hsame).
  unfold demo_remove. rewrite Hrun, Hsame.
  - vm_compute. reflexivity.
  - vm_compute. reflexivity.
Defined.

Lemma pin_three_cases_witness :
  (demo_pin "nixpkgs" demo_world).1 = Ok tt
  ∧ (demo_pin "dwarffs" demo_world).1 = Ok tt
  ∧ demo_pin "hydra" demo_world = (Throw (UnknownAliasError "hydra"), demo_world).
Proof.
  split_and!.
  - destruct (pin_three_cases aliasRef registryFile (evalAt "r1")
                registryRecords recordsRegistry "nixpkgs" demo_world)
      as (Huser & _ & _).
    destruct (Huser (uriRef "github:NixOS/nixpkgs")
                (mkFlake "flake" "a flake" 0
                   (mkSourceInfo
                      (mkFlakeRef (IsURI "github:NixOS/nixpkgs") None (Some "r1"))
                      None "/store")))
      as (Hrun & _).
    + vm_compute. reflexivity.
    + vm_compute. reflexivity.
    + unfold demo_pin. rewrite Hrun. reflexivity.
  - destruct (pin_three_cases aliasRef registryFile (evalAt "r1")
                registryRecords recordsRegistry "dwarffs" demo_world)
      as (_ & Hglobal & _).
    destruct (Hglobal (uriRef "github:edolstra/dwarffs")
                (mkFlake "flake" "a flake" 0
                   (mkSourceInfo
                      (mkFlakeRef (IsURI "github:edolstra/dwarffs") None (Some "r1"))
                      None "/store")))
      as (Hrun & _).
    + vm_compute. reflexivity.
    + vm_compute. reflexivity.
    + vm_compute. reflexivity.
    + unfold demo_pin. rewrite Hrun. reflexivity.
  - destruct (pin_three_cases aliasRef registryFile (evalAt "r1")
                registryRecords recordsRegistry "hydra" demo_world)
      as (_ & _ & Hneither).
    apply Hneither.
    + vm_compute. reflexivity.
    + vm_compute. reflexivity.
Defined.

Lemma pin_leaves_global_untouched_witness :
  globalRegistry (exec (demo_pin "dwarffs") demo_world) = demo_global
  ∧ find (aliasRef "dwarffs")
      (userRegistry registryFile recordsRegistry (exec (demo_pin "dwarffs") demo_world))
    = Some (mkFlakeRef (IsURI "github:edolstra/dwarffs") None (Some "r1")).
Proof.
  destruct (pin_leaves_global_untouched aliasRef registryFile (evalAt "r1")
              registryRecords recordsRegistry recordsRegistry_registryRecords
              "dwarffs" demo_world)
    as (Hglobal & _ & Hinsert).
  split.
  - exact Hglobal.
  - destruct (Hinsert (uriRef "github:edolstra/dwarffs")
                (mkFlake "flake" "a flake" 0
                   (mkSourceInfo
                      (mkFlakeRef (IsURI "github:edolstra/dwarffs") None (Some "r1"))
                      None "/store")))
      as (_ & Hfind & _).
    + vm_compute. reflexivity.
    + vm_compute. reflexivity.
    + vm_compute. reflexivity.
    + exact Hfind.
Defined.

Lemma evalAt_stable revision target f f' :
  evalAt revision target true = Ok f →
  evalAt revision (resolvedRef (sourceInfo f)) true = Ok f' →
  resolvedRef (sourceInfo f') = resolvedRef (sourceInfo f).
Proof.
  unfold evalAt. intros Hf Hf'. injection Hf as <-. injection Hf' as <-.
  reflexivity.
Qed.

Lemma pin_idempotent_witness :
  fs (exec (demo_pin "nixpkgs") (exec (demo_pin "nixpkgs") demo_world))
  = fs (exec (demo_pin "nixpkgs") demo_world).
Proof.
  apply (pin_idempotent aliasRef registryFile (evalAt "r1")
           registryRecords recordsRegistry recordsRegistry_registryRecords
           "nixpkgs" demo_world).
  apply evalAt_stable.
Defined.



Lemma update_only_for_paths_witness :
  demo_update "./nixpkgs" demo_world
  = (Ok tt, emits [UpdateLockFile (pathRef "./nixpkgs" true) true] demo_world)
  ∧ demo_update "nixpkgs" demo_world
    = (Throw (NotUpdatableError (aliasRef "nixpkgs")), demo_world).
Proof.
  split.
  - destruct (update_only_for_paths aliasRef pathRef "./nixpkgs" demo_world)
      as (Hpath & _).
    apply (Hpath "./nixpkgs"). vm_compute. reflexivity.
  - destruct (update_only_for_paths aliasRef pathRef "nixpkgs" demo_world)
      as (_ & Hother & _).
    apply Hother. intros path. vm_compute. discriminate.
Defined.

Lemma deps_breadth_first_witness :
  trace (exec (demo_deps "." [] UseExisting) demo_world)
  = [PrintFlakeInfo (demo_flake "depA"); PrintFlakeInfo (demo_flake "depB");
     PrintFlakeInfo (demo_flake "depC")].
Proof.
  destruct (deps_breadth_first (Bytes := list (FlakeRef * FlakeRef))
              aliasRef pathRef demo_resolveFlake)
    as (_ & _ & Hrun & _).
  unfold exec, demo_deps.
  rewrite (Hrun "." [] UseExisting demo_root demo_world).
  - vm_compute. reflexivity.
  - reflexivity.
Defined.

Lemma init_checks_then_writes_witness :
  demo_init (work_tree [])
    = (Throw (NotAGitRepository "/work"), work_tree [])
  ∧ demo_init (work_tree ["/work/.git"; "/work/flake.nix"])
    = (Throw (FileAlreadyExists "/work/flake.nix"),
       work_tree ["/work/.git"; "/work/flake.nix"])
  ∧ (demo_init (work_tree ["/work/.git"])).1 = Ok tt
  ∧ fs (exec demo_init (work_tree ["/work/.git"])) !! "/work/flake.nix"
    = Some "{ }".
Proof.
  split_and!.
  - destruct (init_checks_then_writes demo_absPath "{ }" (work_tree []))
      as (Hnogit & _).
    apply Hnogit. vm_compute. reflexivity.
  - destruct (init_checks_then_writes demo_absPath "{ }"
                (work_tree ["/work/.git"; "/work/flake.nix"]))
      as (_ & Hexists & _).
    apply Hexists.
    + vm_compute. by eexists.
    + vm_compute. by eexists.
  - destruct (init_checks_then_writes demo_absPath "{ }" (work_tree ["/work/.git"]))
      as (_ & _ & _ & Hwrite & _).
    unfold demo_init. rewrite Hwrite.
    + reflexivity.
    + vm_compute. by eexists.
    + vm_compute. reflexivity.
  - destruct (init_checks_then_writes demo_absPath "{ }" (work_tree ["/work/.git"]))
      as (_ & _ & _ & Hwrite & _).
    unfold exec, demo_init. rewrite Hwrite.
    + vm_compute. reflexivity.
    + vm_compute. by eexists.
    + vm_compute. reflexivity.
Defined.

(** ** The further properties on the concrete instance *)

Lemma add_overrides_earlier_witness :
  fs (exec (demo_add "nixpkgs" "github:other/nixpkgs")
        (exec (demo_remove "nixpkgs") demo_world))
  = fs (exec (demo_add "nixpkgs" "github:other/nixpkgs") demo_world).
Proof.
  apply (add_overrides_earlier aliasRef registryFile registryRecords
           recordsRegistry recordsRegistry_registryRecords
           "nixpkgs" "github:other/nixpkgs" "github:other/nixpkgs" demo_world).
Defined.

Lemma remove_overrides_earlier_witness :
  fs (exec (demo_remove "nixpkgs")
        (exec (demo_add "nixpkgs" "github:other/nixpkgs") demo_world))
  = fs (exec (demo_remove "nixpkgs") demo_world).
Proof.
  apply (remove_overrides_earlier aliasRef registryFile registryRecords
           recordsRegistry recordsRegistry_registryRecords
           "nixpkgs" "github:other/nixpkgs" demo_world).
Defined.


Lemma pin_failure_leaves_world_witness :
  demo_pin_failing "nixpkgs" demo_world
  = (Throw (EvalError "no such flake"), demo_world).
Proof.
  destruct (pin_failure_leaves_world aliasRef registryFile evalFail
              registryRecords recordsRegistry "nixpkgs" demo_world)
    as (_ & Huser & _).
  apply (Huser (uriRef "github:NixOS/nixpkgs")).
  - vm_compute. reflexivity.
  - reflexivity.
Defined.

Lemma add_then_pin_witness :
  find (aliasRef "hydra")
    (userRegistry registryFile recordsRegistry
       (exec (demo_pin "hydra")
          (exec (demo_add "hydra" "github:NixOS/hydra") demo_world)))
  = Some (mkFlakeRef (IsAlias "github:NixOS/hydra") None (Some "r1")).
Proof.
  apply (add_then_pin aliasRef registryFile (evalAt "r1") registryRecords
           recordsRegistry recordsRegistry_registryRecords
           "hydra" "github:NixOS/hydra"
           (mkFlake "flake" "a flake" 0
              (mkSourceInfo
                 (mkFlakeRef (IsAlias "github:NixOS/hydra") None (Some "r1"))
                 None "/store"))
           demo_world).
  reflexivity.
Defined.

Lemma remove_then_pin_falls_back_witness :
  find (aliasRef "nixpkgs")
    (userRegistry registryFile recordsRegistry
       (exec (demo_pin "nixpkgs") (exec (demo_remove "nixpkgs") demo_world)))
  = Some (mkFlakeRef (IsURI "github:edolstra/nixpkgs") None (Some "r1")).
Proof.
  destruct (remove_then_pin_falls_back aliasRef registryFile (evalAt "r1")
              registryRecords recordsRegistry recordsRegistry_registryRecords
              "nixpkgs" demo_world)
    as (Hglobal & _).
  unfold demo_pin, demo_remove.
  rewrite (Hglobal (uriRef "github:edolstra/nixpkgs")
             (mkFlake "flake" "a flake" 0
                (mkSourceInfo
                   (mkFlakeRef (IsURI "github:edolstra/nixpkgs") None (Some "r1"))
                   None "/store"))).
  - vm_compute. reflexivity.
  - vm_compute. reflexivity.
  - reflexivity.
Defined.

Lemma init_runs_once_witness :
  demo_init (exec demo_init (work_tree ["/work/.git"]))
  = (Throw (FileAlreadyExists "/work/flake.nix"),
     exec demo_init (work_tree ["/work/.git"])).
Proof.
  destruct (init_runs_once demo_absPath "{ }" (work_tree ["/work/.git"]))
    as (_ & Hagain).
  apply Hagain. vm_compute. reflexivity.
Defined.

Lemma deps_lists_every_dependency_once_witness :
  ∃ out,
    demo_deps "." [] UseExisting demo_world = (Ok tt, emits out demo_world)
    ∧ out ≡ₚ [PrintFlakeInfo (demo_flake "depA"); PrintFlakeInfo (demo_flake "depB");
              PrintFlakeInfo (demo_flake "depC")].
Proof.
  apply (deps_lists_every_dependency_once (Bytes := list (FlakeRef * FlakeRef))
           aliasRef pathRef demo_resolveFlake "." [] UseExisting demo_root
           demo_world).
  reflexivity.
Defined.

Lemma sourceInfoToJson_keeps_other_keys_witness :
  sourceInfoToJson locator (λ hash, hash) demo_sourceInfo
    {[ "branch" := JString "master" ]} !! "branch"
  = Some (JString "master").
Proof.
  destruct (sourceInfoToJson_keeps_other_keys locator (λ hash, hash)
              demo_sourceInfo {[ "branch" := JString "master" ]})
    as (_ & _ & Hbranch & _).
  rewrite Hbranch.
  - reflexivity.
  - reflexivity.
Defined.

Lemma list_shows_every_layer_witness :
  ∃ before between after,
    CmdFlakeList_run locator demo_registries []
    = before ++ [entry_line locator " user "
                   (aliasRef "nixpkgs", uriRef "github:NixOS/nixpkgs")]
      ++ between ++ [entry_line locator " global "
                       (aliasRef "nixpkgs", uriRef "github:edolstra/nixpkgs")]
      ++ after.
Proof.
  destruct (list_shows_every_layer locator demo_registries [])
    as (_ & _ & _ & _ & Htwice).
  apply Htwice.
  - vm_compute. reflexivity.
  - vm_compute. reflexivity.
Defined.
